(** * blogg: the theme configuration and the application shell

    A shallow embedding of the two pieces of JavaScript in the blog:

    - the theme configuration module (a default-exported object literal
      whose [footerText] reads the clock once, while the literal is
      evaluated);
    - the application shell [pages/_app.js] and its sibling copy, whose
      top-level statements install the highlighting engine in a global
      slot and [require] a fixed list of grammar components, and whose
      default export [Nextra] renders the selected page.

    The highlighting engine, its grammar components and the JSX runtime are
    third-party packages; what the shell needs from them is kept abstract
    (Section variables) or described next to the definition that uses it. *)

From Stdlib Require Import ZArith.
From stdpp Require Import gmap strings list fin_maps.

Set Warnings "-register-all,-clear-no-such-hyp".
Local Open Scope string_scope.

(** ** Results of running top-level code *)

Inductive JsError :=
| ReferenceError (name : string)
| ModuleNotFound (path : string).

Inductive result (A : Type) :=
| Ok (a : A)
| Throw (e : JsError).
Arguments Ok {A} a.
Arguments Throw {A} e.

Definition bind {A B} (r : result A) (f : A → result B) : result B :=
  match r with
  | Ok a => f a
  | Throw e => Throw e
  end.

Notation "'let*' x := r 'in' k" := (bind r (fun x => k))
  (at level 10, x name, r at level 100, k at level 200, only parsing).

(** Sequencing of two statements on a state. *)
Definition and_then {S} (f g : S → result S) : S → result S :=
  fun s => bind (f s) g.
Infix ">>>" := and_then (at level 60, right associativity).

(** ** The theme configuration *)

Module Theme.

(** A clock reading in local calendar fields, what [new Date()] gives;
    months count from 0 as in JavaScript. *)
Record Date := mkDate { fullYear : Z; month : Z; date : Z }.

Definition getFullYear (d : Date) : Z := fullYear d.

(** JSX values as they appear in the configuration: text, a number put
    in by an expression container, an element with its attributes in
    source order, a fragment. *)
Inductive Node :=
| Text (s : string)
| Num (n : Z)
| Element (tag : string) (attrs : list (string * string)) (children : list Node)
| Fragment (children : list Node).

Record SiteConfig := mkSiteConfig {
  repository : string;
  titleSuffix : string;
  logo : Node;
  head : Node;
  search : bool;
  prevLinks : bool;
  nextLinks : bool;
  footer : bool;
  footerEditOnGitHubLink : bool;
  footerText : Node
}.

Definition meta (name content : string) : Node :=
  Element "meta" [("name", name); ("content", content)] [].

Definition icon (sizes href : string) : Node :=
  Element "link"
    [("rel", "icon"); ("type", "image/png"); ("sizes", sizes); ("href", href)] [].

(** The object literal that the module exports by default. The literal is
    evaluated when the module is, and [now] is what the clock reads then:
    [new Date().getFullYear()] is an expression of the literal, not a
    function stored in it. *)
Definition theme_config (now : Date) : SiteConfig := {|
  repository := "https://github.com/martinomburajr";
  titleSuffix := " 🦆";
  logo :=
    Fragment
      [ Element "span" [("className", "mr-2 font-extrabold hidden md:inline")]
          [Text "@martinomburajr 🦆"] ];
  head :=
    Fragment
      [ Element "script" [("type", "text/javascript"); ("src", "gtag.js")] [];
        meta "msapplication-TileColor" "#ffffff";
        meta "theme-color" "#ffffff";
        meta "viewport" "width=device-width, initial-scale=1.0";
        Element "meta" [("httpEquiv", "Content-Language"); ("content", "en")] [];
        meta "description" "A centralized blog for Martin Ombura Jr. Featuring info on Go, Rust, Distributed Systems etc.";
        meta "og:description" "A centralized blog for Martin Ombura Jr. Featuring info on Go, Rust, Distributed Systems etc.";
        meta "twitter:card" "summary_large_image";
        meta "twitter:image" "https://nextra.vercel.app/og.png";
        meta "twitter:site:domain" "https://twitter.com/martinomburajr";
        meta "twitter:url" "https://twitter.com/martinomburajr";
        meta "og:title" "Martin Ombura Jr. Blog";
        meta "og:image" "https://nextra.vercel.app/og.png";
        meta "apple-mobile-web-app-title" "Nextra";
        Element "link"
          [("rel", "apple-touch-icon"); ("sizes", "180x180");
           ("href", "/apple-icon-180x180.png")] [];
        icon "192x192" "/android-icon-192x192.png";
        icon "32x32" "/favicon-32x32.png";
        icon "96x96" "/favicon-96x96.png";
        icon "16x16" "/favicon-16x16.png";
        meta "msapplication-TileImage" "/ms-icon-144x144.png" ];
  search := true;
  prevLinks := true;
  nextLinks := true;
  footer := true;
  footerEditOnGitHubLink := false;
  footerText :=
    Fragment [Text " "; Num (getFullYear now); Text " © @martinomburajr."]
|}.

(** Importing the configuration module at clock reading [now]. The cache
    entry of the module is [None] until its first evaluation and holds the
    exported object afterwards; a later import returns that object and does
    not evaluate the literal again. *)
Definition import_config (now : Date) (cache : option SiteConfig)
  : SiteConfig * option SiteConfig :=
  match cache with
  | Some cfg => (cfg, cache)
  | None => let cfg := theme_config now in (cfg, Some cfg)
  end.

(** The first number an expression container put among some children. *)
Fixpoint first_number (cs : list Node) : option Z :=
  match cs with
  | [] => None
  | Num y :: _ => Some y
  | _ :: rest => first_number rest
  end.

Definition embedded_number (n : Node) : option Z :=
  match n with
  | Fragment cs | Element _ _ cs => first_number cs
  | _ => None
  end.

Definition footer_year (c : SiteConfig) : option Z :=
  embedded_number (footerText c).

(** A configuration with its footer text blanked: every other field. *)
Definition without_footerText (c : SiteConfig) : SiteConfig :=
  mkSiteConfig (repository c) (titleSuffix c) (logo c) (head c) (search c)
    (prevLinks c) (nextLinks c) (footer c) (footerEditOnGitHubLink c)
    (Fragment []).

End Theme.

(** ** The application shell *)

Module AppShell.

(** Which of the two ambient namespaces the execution context provides:
    [typeof global !== "undefined"] and the same question for [window]. *)
Record Env := mkEnv { has_global : bool; has_window : bool }.

(** Server-side rendering has [global] only, a browser has [window] only. *)
Definition server : Env := mkEnv true false.
Definition browser : Env := mkEnv false true.

Inductive Namespace := NsGlobal | NsWindow.

(** A reference to the one engine object, the default export of
    [prism-react-renderer/prism]. *)
Inductive EngineRef := PrismRef.

(** [(typeof global !== "undefined" ? global : window)]: the conditional
    picks [global] when it is defined and [window] otherwise; evaluating
    the identifier [window] where it is not defined throws. *)
Definition select (e : Env) : result Namespace :=
  if has_global e then Ok NsGlobal
  else if has_window e then Ok NsWindow
  else Throw (ReferenceError "window").

(** [strip_prefix pre s] is [Some rest] when [s = pre ++ rest]. *)
Fixpoint strip_prefix (pre s : string) : option string :=
  match pre, s with
  | EmptyString, _ => Some s
  | String a pre', String b s' =>
      if Ascii.eqb a b then strip_prefix pre' s' else None
  | String _ _, EmptyString => None
  end.

(** The language identifier of a grammar component path. *)
Definition component_id (path : string) : option string :=
  strip_prefix "prismjs/components/prism-" path.

Section Shell.

(** A highlighting ruleset; its structure belongs to the engine. *)
Variable Grammar : Type.

(** Modelled from the spec: the component modules
    [prismjs/components/prism-<id>] are third-party and not part of the
    sources. The registry is "a table mapping a language identifier to a
    parsing/highlighting ruleset", and a component registers its grammar
    against the engine found under the free identifier [Prism].
    [ruleset id reg] is the ruleset the component for [id] builds when the
    table holds [reg] (a component may derive its grammar from one that is
    already there). *)
Variable ruleset : string → gmap string Grammar → Grammar.

(** The state of one JavaScript process, as far as the shell touches it. *)
Record Process := mkProcess {
  host : Env;                          (* the execution context *)
  global_Prism : option EngineRef;     (* global.Prism *)
  window_Prism : option EngineRef;     (* window.Prism *)
  languages : gmap string Grammar;     (* Prism.languages, the grammar registry *)
  loaded : gset string;                (* the module cache of require *)
  registered : list string             (* history of the writes to the registry, oldest first *)
}.

(** A process in which no module of the shell has been evaluated yet; the
    engine ships with the grammars [stock]. *)
Definition fresh_process (e : Env) (stock : gmap string Grammar) : Process :=
  mkProcess e None None stock ∅ [].

Definition slot (ns : Namespace) (p : Process) : option EngineRef :=
  match ns with
  | NsGlobal => global_Prism p
  | NsWindow => window_Prism p
  end.

Definition set_slot (ns : Namespace) (r : EngineRef) (p : Process) : Process :=
  match ns with
  | NsGlobal =>
      mkProcess (host p) (Some r) (window_Prism p) (languages p) (loaded p) (registered p)
  | NsWindow =>
      mkProcess (host p) (global_Prism p) (Some r) (languages p) (loaded p) (registered p)
  end.

(** [(typeof global !== "undefined" ? global : window).Prism = Prism] *)
Definition install_Prism (p : Process) : result Process :=
  let* ns := select (host p) in
  Ok (set_slot ns PrismRef p).

(** The free identifier [Prism] inside a component resolves on the global
    object, which is the namespace [select] picks. *)
Definition free_Prism (p : Process) : result EngineRef :=
  match select (host p) with
  | Ok ns =>
      match slot ns p with
      | Some r => Ok r
      | None => Throw (ReferenceError "Prism")
      end
  | Throw _ => Throw (ReferenceError "Prism")
  end.

(** The body of the component for [id]: [Prism.languages[id] = ...]. *)
Definition run_component (id : string) (p : Process) : result Process :=
  let* r := free_Prism p in
  match r with
  | PrismRef =>
      Ok (mkProcess (host p) (global_Prism p) (window_Prism p)
            (<[id := ruleset id (languages p)]> (languages p))
            (loaded p) (registered p ++ [id]))
  end.

Definition mark_loaded (path : string) (p : Process) : Process :=
  mkProcess (host p) (global_Prism p) (window_Prism p) (languages p)
    ({[path]} ∪ loaded p) (registered p).

(** [require(path)]: a module already in the cache is not evaluated again;
    otherwise its body runs, and it enters the cache when the body
    completes. *)
Definition require (path : string) (p : Process) : result Process :=
  if decide (path ∈ loaded p) then Ok p
  else
    match component_id path with
    | None => Throw (ModuleNotFound path)
    | Some id =>
        let* p' := run_component id p in
        Ok (mark_loaded path p')
    end.

Fixpoint require_all (paths : list string) (p : Process) : result Process :=
  match paths with
  | [] => Ok p
  | path :: rest => let* p' := require path p in require_all rest p'
  end.

(** The top-level statements of [src/pages/_app.js], lines 4 to 9. *)
Definition bootstrap : Process → result Process :=
  install_Prism >>>
  require "prismjs/components/prism-rust" >>>
  require "prismjs/components/prism-go" >>>
  require "prismjs/components/prism-c" >>>
  require "prismjs/components/prism-asm6502" >>>
  require "prismjs/components/prism-nasm".

(** The top-level statements of the sibling copy of the shell, lines 4 to 9. *)
Definition bootstrap_sibling : Process → result Process :=
  install_Prism >>>
  require "prismjs/components/prism-rust" >>>
  require "prismjs/components/prism-nasm" >>>
  require "prismjs/components/prism-bash".

(** The component paths of each shell, in the order they are required. *)
Definition components : list string :=
  [ "prismjs/components/prism-rust"; "prismjs/components/prism-go";
    "prismjs/components/prism-c"; "prismjs/components/prism-asm6502";
    "prismjs/components/prism-nasm" ].

Definition components_sibling : list string :=
  [ "prismjs/components/prism-rust"; "prismjs/components/prism-nasm";
    "prismjs/components/prism-bash" ].

(** Installing the engine and then requiring a list of components. *)
Definition boot (paths : list string) (p : Process) : result Process :=
  let* p0 := install_Prism p in require_all paths p0.

(** The engine is reachable under the free identifier [Prism]. *)
Definition installed (p : Process) : Prop := free_Prism p = Ok PrismRef.

(** The cache and the registry agree: a cached component has its entry. *)
Definition cache_sound (p : Process) : Prop :=
  ∀ path id, path ∈ loaded p → component_id path = Some id →
    id ∈ dom (languages p).

(** What every [require] leaves alone, and in which direction the cache
    and the registry move. *)
Record extends (p p' : Process) : Prop := mkExtends {
  ext_host : host p' = host p;
  ext_global : global_Prism p' = global_Prism p;
  ext_window : window_Prism p' = window_Prism p;
  ext_loaded : loaded p ⊆ loaded p';
  ext_dom : dom (languages p) ⊆ dom (languages p')
}.

(** The registry after the components for [ids] ran, in order, on [reg]:
    each one sees the table as the ones before it left it. *)
Definition register_all (ids : list string) (reg : gmap string Grammar)
  : gmap string Grammar :=
  foldl (λ r id, <[id := ruleset id r]> r) reg ids.

(** The paths of a list that [require] would evaluate when the cache holds
    [cache]: those not in the cache, each at its first occurrence. *)
Fixpoint pending (paths : list string) (cache : gset string) : list string :=
  match paths with
  | [] => []
  | path :: rest =>
      if decide (path ∈ cache) then pending rest cache
      else path :: pending rest ({[path]} ∪ cache)
  end.

(** The process after a run of [boot paths] that stored the engine in the
    namespace [ns]. *)
Definition booted (paths : list string) (ns : Namespace) (p : Process)
  : Process :=
  let ids := omap component_id (pending paths (loaded p)) in
  mkProcess (host p)
    (global_Prism (set_slot ns PrismRef p))
    (window_Prism (set_slot ns PrismRef p))
    (register_all ids (languages p))
    (list_to_set paths ∪ loaded p)
    (registered p ++ ids).

(** *** The render function *)

(** Values of props and the output of a rendered page belong to the pages
    and to the framework. *)
Variable Value : Type.
Variable Output : Type.

(** A page component maps its props to its output. *)
Definition PageComponent : Type := gmap string Value → Output.

(** The elements the shell builds: a component element, which records the
    component and the attribute object handed to the JSX factory, and a
    fragment. *)
Inductive ReactElement :=
| ComponentElement (type : PageComponent) (props : gmap string Value)
| FragmentElement (children : list ReactElement).

(** The argument of the render function, [{ Component, pageProps }]. *)
Record AppProps := mkAppProps {
  Component : PageComponent;
  pageProps : gmap string Value
}.

(** [{...o}] in an attribute list: the properties of [o] are copied over
    the attributes collected so far. *)
Definition spread (o attrs : gmap string Value) : gmap string Value :=
  o ∪ attrs.

(** [export default function Nextra] of [src/pages/_app.js]. *)
Definition Nextra (a : AppProps) : ReactElement :=
  ComponentElement (Component a) (spread (pageProps a) ∅).



(** What the rest of the process does with the shell: it evaluates the
    module's top level, or it calls the exported render function on a page
    and its props. A step gives the next state of the process and the
    element returned, if any; [Nextra] takes its argument and reads nothing
    of the process. *)
Inductive Event :=
| LoadShell
| RenderPage (a : AppProps).

Definition step (ev : Event) (p : Process)
  : result (Process * option ReactElement) :=
  match ev with
  | LoadShell => let* p' := bootstrap p in Ok (p', None)
  | RenderPage a => Ok (p, Some (Nextra a))
  end.

Fixpoint run (evs : list Event) (p : Process) : result Process :=
  match evs with
  | [] => Ok p
  | ev :: rest => let* r := step ev p in run rest (fst r)
  end.

(** Whether an event evaluates the shell's top level. *)
Definition is_load (ev : Event) : bool :=
  match ev with
  | LoadShell => true
  | RenderPage _ => false
  end.

(** ** Facts about the bootstrap *)

Lemma bind_Ok {A B} (r : result A) (f : A → result B) b :
  bind r f = Ok b → ∃ a, r = Ok a ∧ f a = Ok b.
Proof. destruct r as [a|e]; simpl; [eauto | discriminate]. Qed.

Lemma select_Ok e :
  has_global e || has_window e = true → ∃ ns, select e = Ok ns.
Proof. unfold select. destruct (has_global e), (has_window e); naive_solver. Qed.


Lemma install_Prism_inv p p' :
  install_Prism p = Ok p' →
  ∃ ns, select (host p) = Ok ns ∧ p' = set_slot ns PrismRef p.
Proof.
  unfold install_Prism. intros (ns & Hs & Hp)%bind_Ok.
  exists ns. split; [done | congruence].
Qed.

Lemma install_Prism_installed p p' : install_Prism p = Ok p' → installed p'.
Proof.
  intros (ns & Hs & ->)%install_Prism_inv. unfold installed, free_Prism.
  destruct ns; simpl; rewrite Hs; done.
Qed.

Lemma install_Prism_frame p p' :
  install_Prism p = Ok p' →
  host p' = host p ∧ languages p' = languages p ∧ loaded p' = loaded p ∧
  registered p' = registered p.
Proof. intros (ns & Hs & ->)%install_Prism_inv. by destruct ns. Qed.

(** Installing again where the engine is installed changes nothing. *)
Lemma install_Prism_again p : installed p → install_Prism p = Ok p.
Proof.
  unfold installed, free_Prism, install_Prism.
  destruct (select (host p)) as [ns|]; simpl; [|done].
  destruct (slot ns p) as [[]|] eqn:Hslot; [|done]. intros _.
  destruct p, ns; simpl in *; by rewrite Hslot.
Qed.

(** What one [require] does, by cases on the cache. *)
Lemma require_inv path p p' :
  require path p = Ok p' →
  (path ∈ loaded p ∧ p' = p) ∨
  ((path ∉ loaded p) ∧ installed p ∧
   ∃ id, component_id path = Some id ∧
     p' = mkProcess (host p) (global_Prism p) (window_Prism p)
            (<[id := ruleset id (languages p)]> (languages p))
            ({[path]} ∪ loaded p) (registered p ++ [id])).
Proof.
  unfold require. case_decide as Hin; [left; split; [done | congruence]|].
  destruct (component_id path) as [id|]; [|done].
  unfold run_component, installed.
  destruct (free_Prism p) as [[]|]; simpl; [|done].
  intros [= <-]. right. repeat split; [done|]. by exists id.
Qed.

Lemma require_cached path p : path ∈ loaded p → require path p = Ok p.
Proof. intros Hin. unfold require. by rewrite decide_True. Qed.

Lemma require_uncached path id p :
  path ∉ loaded p → installed p → component_id path = Some id →
  require path p =
    Ok (mkProcess (host p) (global_Prism p) (window_Prism p)
          (<[id := ruleset id (languages p)]> (languages p))
          ({[path]} ∪ loaded p) (registered p ++ [id])).
Proof.
  intros Hnin Hinst Hid. unfold require. rewrite decide_False by done.
  rewrite Hid. unfold run_component. by rewrite Hinst.
Qed.

Lemma extends_refl p : extends p p.
Proof. by split. Qed.

Lemma extends_trans p q r : extends p q → extends q r → extends p r.
Proof.
  intros [] []. split; try congruence; set_solver.
Qed.

Lemma extends_installed p p' : extends p p' → installed p → installed p'.
Proof.
  intros [Hh Hg Hw _ _]. unfold installed, free_Prism.
  rewrite Hh. destruct (select (host p)) as [[]|]; simpl; [| |done].
  - by rewrite Hg.
  - by rewrite Hw.
Qed.

Lemma require_extends path p p' : require path p = Ok p' → extends p p'.
Proof.
  intros [[_ ->]|(_ & _ & id & _ & ->)]%require_inv; [apply extends_refl|].
  split; simpl; try done; [set_solver|]. rewrite dom_insert_L. set_solver.
Qed.

Lemma require_loaded path p p' : require path p = Ok p' → path ∈ loaded p'.
Proof.
  intros [[? ->]|(_ & _ & id & _ & ->)]%require_inv; [done|]. simpl. set_solver.
Qed.

Lemma require_cache_sound path p p' :
  require path p = Ok p' → cache_sound p → cache_sound p'.
Proof.
  intros [[_ ->]|(_ & _ & id & Hid & ->)]%require_inv Hs; [done|].
  intros path0 id0. simpl. rewrite dom_insert_L.
  intros [->%elem_of_singleton|Hin]%elem_of_union Hid0.
  - assert (id0 = id) as -> by congruence. set_solver.
  - specialize (Hs path0 id0 Hin Hid0). set_solver.
Qed.

Lemma require_all_extends paths p p' :
  require_all paths p = Ok p' → extends p p'.
Proof.
  revert p. induction paths as [|path rest IH]; simpl; intros p.
  - intros [= <-]. apply extends_refl.
  - intros (q & Hq & Hrest)%bind_Ok.
    eapply extends_trans; [by eapply require_extends | by apply IH].
Qed.

Lemma require_all_loaded paths p p' :
  require_all paths p = Ok p' → ∀ path, path ∈ paths → path ∈ loaded p'.
Proof.
  revert p. induction paths as [|x rest IH]; simpl; intros p.
  - intros _ path Hin. by apply elem_of_nil in Hin.
  - intros (q & Hq & Hrest)%bind_Ok path [->|Hin]%elem_of_cons.
    + apply require_all_extends in Hrest. apply require_loaded in Hq.
      by apply (ext_loaded _ _ Hrest).
    + by eapply IH.
Qed.

Lemma require_all_cache_sound paths p p' :
  require_all paths p = Ok p' → cache_sound p → cache_sound p'.
Proof.
  revert p. induction paths as [|x rest IH]; simpl; intros p.
  - by intros [= <-].
  - intros (q & Hq & Hrest)%bind_Ok Hs.
    eapply IH; [done|]. by eapply require_cache_sound.
Qed.

(** With every path in the cache, requiring the list is the identity. *)
Lemma require_all_cached paths p :
  (∀ path, path ∈ paths → path ∈ loaded p) → require_all paths p = Ok p.
Proof.
  induction paths as [|x rest IH]; simpl; intros Hall; [done|].
  rewrite require_cached by (apply Hall; left). simpl.
  apply IH. intros path Hin. apply Hall. by right.
Qed.

(** Requiring component paths succeeds once the engine is installed. *)
Lemma require_all_total paths p :
  installed p → Forall (λ path, is_Some (component_id path)) paths →
  ∃ p', require_all paths p = Ok p'.
Proof.
  revert p. induction paths as [|x rest IH]; simpl; intros p Hinst Hall.
  - by exists p.
  - apply Forall_cons in Hall as [[id Hid] Hall].
    assert (∃ q, require x p = Ok q) as [q Hq].
    { destruct (decide (x ∈ loaded p)) as [Hin|Hnin].
      - exists p. by apply require_cached.
      - eexists. by apply require_uncached. }
    rewrite Hq. simpl. apply IH; [|done].
    eapply extends_installed; [by eapply require_extends | done].
Qed.

(** Requiring distinct paths none of which is cached registers their
    identifiers, in order, each once. *)
Lemma require_all_uncached paths p :
  installed p → NoDup paths →
  Forall (λ path, is_Some (component_id path)) paths →
  (∀ path, path ∈ paths → path ∉ loaded p) →
  ∃ p', require_all paths p = Ok p' ∧
    registered p' = (registered p ++ omap component_id paths)%list ∧
    dom (languages p') =
      dom (languages p) ∪ list_to_set (omap component_id paths).
Proof.
  revert p. induction paths as [|x rest IH]; simpl; intros p Hinst Hnd Hall Hnin.
  - exists p. rewrite app_nil_r. split; [done|]. split; [done|]. set_solver.
  - apply NoDup_cons in Hnd as [Hx Hnd].
    apply Forall_cons in Hall as [[id Hid] Hall].
    rewrite (require_uncached x id) by (try done; apply Hnin; left).
    simpl. rewrite Hid. simpl.
    edestruct IH as (p' & Hrun & Hreg & Hdom); [| done | done | | ].
    3:{ exists p'. split; [exact Hrun|]. simpl in Hreg, Hdom.
        rewrite Hreg, Hdom, dom_insert_L, <-app_assoc. split; [done|].
        set_solver. }
    + revert Hinst. unfold installed, free_Prism. simpl.
      by destruct (select (host p)) as [[]|].
    + simpl. intros path Hin [->%elem_of_singleton|Hl]%elem_of_union; [done|].
      eapply Hnin; [by right | done].
Qed.

(** Both shells are [boot] at their own list of components. *)
Lemma bootstrap_boot p : bootstrap p = boot components p.
Proof.
  unfold bootstrap, boot, and_then, components; simpl.
  destruct (install_Prism p) as [p0|]; simpl; [|done].
  repeat match goal with
  | |- context [require ?x ?q] => destruct (require x q); simpl; [|done]
  end; done.
Qed.

Lemma bootstrap_sibling_boot p :
  bootstrap_sibling p = boot components_sibling p.
Proof.
  unfold bootstrap_sibling, boot, and_then, components_sibling; simpl.
  destruct (install_Prism p) as [p0|]; simpl; [|done].
  repeat match goal with
  | |- context [require ?x ?q] => destruct (require x q); simpl; [|done]
  end; done.
Qed.

Lemma boot_inv paths p p' :
  boot paths p = Ok p' →
  ∃ p0, install_Prism p = Ok p0 ∧ require_all paths p0 = Ok p'.
Proof. unfold boot. by intros ?%bind_Ok. Qed.

Lemma boot_installed paths p p' : boot paths p = Ok p' → installed p'.
Proof.
  intros (p0 & Hi & Hr)%boot_inv.
  eapply extends_installed; [by eapply require_all_extends|].
  by eapply install_Prism_installed.
Qed.

(** A second run over the state the first one left is the identity. *)
Lemma boot_again paths p p' : boot paths p = Ok p' → boot paths p' = Ok p'.
Proof.
  intros Hb. pose proof (boot_installed _ _ _ Hb) as Hinst.
  apply boot_inv in Hb as (p0 & Hi & Hr). unfold boot.
  rewrite install_Prism_again by done. simpl.
  apply require_all_cached. by eapply require_all_loaded.
Qed.

Lemma boot_dom paths p p' :
  boot paths p = Ok p' → dom (languages p) ⊆ dom (languages p').
Proof.
  intros (p0 & Hi & Hr)%boot_inv.
  apply install_Prism_frame in Hi as (_ & <- & _ & _).
  by apply require_all_extends in Hr as [].
Qed.

Lemma boot_total paths p :
  has_global (host p) || has_window (host p) = true →
  Forall (λ path, is_Some (component_id path)) paths →
  ∃ p', boot paths p = Ok p'.
Proof.
  intros [ns Hns]%select_Ok Hall. unfold boot, install_Prism.
  rewrite Hns. simpl. apply require_all_total; [|done].
  apply (install_Prism_installed p). unfold install_Prism. by rewrite Hns.
Qed.


Lemma components_ok :
  Forall (λ path, is_Some (component_id path)) components.
Proof. repeat constructor; by eexists. Qed.

Lemma components_sibling_ok :
  Forall (λ path, is_Some (component_id path)) components_sibling.
Proof. repeat constructor; by eexists. Qed.


(** C3: the bootstrap is idempotent. Running the top-level statements of a
    shell twice in one process gives exactly the result of running them
    once: the same registry, and the same slots, cache and log of writes
    (and the same exception when the first run throws). *)
Theorem bootstrap_idempotent p :
  bind (bootstrap p) bootstrap = bootstrap p ∧
  bind (bootstrap_sibling p) bootstrap_sibling = bootstrap_sibling p.
Proof.
  split.
  - destruct (bootstrap p) as [p'|] eqn:Hb; simpl; [|done].
    rewrite bootstrap_boot in *. by eapply boot_again.
  - destruct (bootstrap_sibling p) as [p'|] eqn:Hb; simpl; [|done].
    rewrite bootstrap_sibling_boot in *. by eapply boot_again.
Qed.

Lemma run_fixed evs p : bootstrap p = Ok p → run evs p = Ok p.
Proof.
  intros Hfix. induction evs as [|[|a] rest IH]; simpl; [done| |done].
  by rewrite Hfix.
Qed.

(** A run in a process that has loaded nothing. *)
Lemma boot_fresh paths e stock :
  has_global e || has_window e = true →
  NoDup paths → Forall (λ path, is_Some (component_id path)) paths →
  ∃ p', boot paths (fresh_process e stock) = Ok p' ∧
    registered p' = omap component_id paths ∧
    dom (languages p') = dom stock ∪ list_to_set (omap component_id paths).
Proof.
  intros [ns Hns]%select_Ok Hnd Hall. unfold boot, install_Prism.
  simpl. rewrite Hns. simpl.
  destruct (require_all_uncached paths
              (set_slot ns PrismRef (fresh_process e stock)))
    as (p' & Hrun & Hreg & Hdom); [|done|done| |].
  - apply (install_Prism_installed (fresh_process e stock)).
    unfold install_Prism. simpl. by rewrite Hns.
  - intros path _. destruct ns; simpl; set_solver.
  - exists p'. split; [done|]. split.
    + rewrite Hreg. by destruct ns.
    + rewrite Hdom. by destruct ns.
Qed.

Lemma bootstrap_fresh e stock :
  has_global e || has_window e = true →
  ∃ p', bootstrap (fresh_process e stock) = Ok p' ∧
    registered p' = ["rust"; "go"; "c"; "asm6502"; "nasm"] ∧
    dom (languages p') =
      dom stock ∪ list_to_set ["rust"; "go"; "c"; "asm6502"; "nasm"].
Proof.
  intros Hns. rewrite bootstrap_boot.
  apply (boot_fresh components e stock Hns); [|apply components_ok].
  refine (bool_decide_unpack _ _); by vm_compute.
Qed.

Lemma bootstrap_sibling_fresh e stock :
  has_global e || has_window e = true →
  ∃ p', bootstrap_sibling (fresh_process e stock) = Ok p' ∧
    registered p' = ["rust"; "nasm"; "bash"] ∧
    dom (languages p') = dom stock ∪ list_to_set ["rust"; "nasm"; "bash"].
Proof.
  intros Hns. rewrite bootstrap_sibling_boot.
  apply (boot_fresh components_sibling e stock Hns);
    [|apply components_sibling_ok].
  refine (bool_decide_unpack _ _); by vm_compute.
Qed.


(** C6: the engine goes to one of exactly two namespaces. Where [global]
    exists the reference is stored in [global.Prism]; where it does not
    and [window] exists, in [window.Prism]; so with at least one of the two
    the engine is installed and reachable, and with neither the statement
    throws a ReferenceError, which nothing catches. *)
Theorem install_Prism_selects p :
  (has_global (host p) = true →
     install_Prism p = Ok (set_slot NsGlobal PrismRef p)) ∧
  (has_global (host p) = false → has_window (host p) = true →
     install_Prism p = Ok (set_slot NsWindow PrismRef p)) ∧
  (has_global (host p) || has_window (host p) = true →
     ∃ ns p', install_Prism p = Ok p' ∧ slot ns p' = Some PrismRef ∧
       installed p') ∧
  (has_global (host p) = false → has_window (host p) = false →
     install_Prism p = Throw (ReferenceError "window")).
Proof.
  unfold install_Prism, select. repeat split.
  - by intros ->.
  - by intros -> ->.
  - intros Hns.
    destruct (select_Ok _ Hns) as [ns Hsel].
    exists ns, (set_slot ns PrismRef p). unfold select in Hsel.
    rewrite Hsel. simpl. split; [done|]. split; [by destruct ns|].
    apply (install_Prism_installed p). unfold install_Prism, select.
    by rewrite Hsel.
  - by intros -> ->.
Qed.




(** ** More on the bootstrap: what it writes, and what it leaves alone *)

Lemma strip_prefix_inv pre s r : strip_prefix pre s = Some r → s = pre +:+ r.
Proof.
  revert s. induction pre as [|a pre IH]; intros s; simpl.
  - by intros [= ->].
  - destruct s as [|b s]; [done|].
    destruct (Ascii.eqb a b) eqn:Hab; [|done].
    apply Ascii.eqb_eq in Hab as ->. intros ->%IH. done.
Qed.

Lemma component_id_inj x y id :
  component_id x = Some id → component_id y = Some id → x = y.
Proof.
  unfold component_id. intros ->%strip_prefix_inv ->%strip_prefix_inv. done.
Qed.

Lemma pending_elem paths cache x :
  x ∈ pending paths cache → x ∈ paths ∧ x ∉ cache.
Proof.
  revert cache. induction paths as [|y rest IH]; intros cache; simpl.
  - by intros ?%elem_of_nil.
  - case_decide as Hy.
    + intros [? ?]%IH. split; [by right | done].
    + intros [->|[? ?]%IH]%elem_of_cons; [split; [by left | done]|].
      split; [by right | set_solver].
Qed.

Lemma pending_cached paths cache :
  (∀ x, x ∈ paths → x ∈ cache) → pending paths cache = [].
Proof.
  induction paths as [|y rest IH]; simpl; intros Hall; [done|].
  rewrite decide_True by (apply Hall; left).
  apply IH. intros x Hx. apply Hall. by right.
Qed.

Lemma register_all_lookup_other ids reg k :
  k ∉ ids → register_all ids reg !! k = reg !! k.
Proof.
  revert reg. induction ids as [|id ids IH]; intros reg Hk; [done|].
  apply not_elem_of_cons in Hk as [Hne Hk]. unfold register_all. simpl.
  fold (register_all ids (<[id := ruleset id reg]> reg)).
  rewrite IH by done. by rewrite lookup_insert_ne.
Qed.


Lemma installed_frame p q :
  host q = host p → global_Prism q = global_Prism p →
  window_Prism q = window_Prism p → installed p → installed q.
Proof.
  intros Hh Hg Hw. unfold installed, free_Prism. rewrite Hh.
  destruct (select (host p)) as [[]|]; simpl; [| |done].
  - by rewrite Hg.
  - by rewrite Hw.
Qed.

(** The state a list of requires leaves, in closed form. *)
Lemma require_all_spec paths p :
  installed p → Forall (λ path, is_Some (component_id path)) paths →
  require_all paths p =
    Ok (mkProcess (host p) (global_Prism p) (window_Prism p)
          (register_all (omap component_id (pending paths (loaded p)))
             (languages p))
          (list_to_set paths ∪ loaded p)
          (registered p ++ omap component_id (pending paths (loaded p)))).
Proof.
  revert p. induction paths as [|x rest IH]; intros p Hinst Hall.
  - simpl. rewrite app_nil_r, (left_id_L ∅ (∪)). by destruct p.
  - apply Forall_cons in Hall as [[id Hid] Hall]. simpl.
    case_decide as Hx.
    + rewrite require_cached by done. simpl. rewrite IH by done.
      do 2 f_equal. set_solver.
    + rewrite (require_uncached x id) by done. simpl.
      rewrite IH by (try done; by eapply installed_frame).
      simpl. rewrite Hid. simpl. rewrite <-app_assoc. simpl.
      do 2 f_equal. set_solver.
Qed.

Lemma boot_spec paths p p' :
  Forall (λ path, is_Some (component_id path)) paths →
  boot paths p = Ok p' →
  ∃ ns, select (host p) = Ok ns ∧ p' = booted paths ns p.
Proof.
  intros Hall (p0 & Hi & Hr)%boot_inv.
  pose proof (install_Prism_installed _ _ Hi) as Hinst.
  apply install_Prism_inv in Hi as (ns & Hns & ->).
  exists ns. split; [done|].
  rewrite require_all_spec in Hr by done.
  injection Hr as <-. unfold booted. by destruct ns.
Qed.

Lemma written_ids_components cache k :
  k ∈ omap component_id (pending components cache) →
  k ∈ ["rust"; "go"; "c"; "asm6502"; "nasm"].
Proof.
  intros (x & [Hx _]%pending_elem & Hid)%list_elem_of_omap.
  unfold components in Hx. set_unfold in Hx. set_unfold.
  destruct_or!; subst x; injection Hid as <-; auto 10.
Qed.


Lemma written_ids_uncached paths cache path id :
  path ∈ cache → component_id path = Some id →
  id ∉ omap component_id (pending paths cache).
Proof.
  intros Hin Hid (x & [_ Hx]%pending_elem & Hidx)%list_elem_of_omap.
  by rewrite (component_id_inj _ _ _ Hidx Hid) in Hx.
Qed.

Lemma boot_cache_sound paths p p' :
  boot paths p = Ok p' → cache_sound p → cache_sound p'.
Proof.
  intros (p0 & Hi & Hr)%boot_inv Hs.
  eapply require_all_cache_sound; [done|].
  apply install_Prism_frame in Hi as (_ & Hl & Hc & _).
  intros x y. rewrite Hl, Hc. apply Hs.
Qed.



(** X3: the bootstrap leaves the rest of the registry alone. After a
    completed bootstrap of [src/pages/_app.js] every identifier other than
    rust, go, c, asm6502 and nasm has the entry it had before (or still
    none), and so has the identifier of every component that was already
    in the module cache: a cached component is not run again and no other
    component writes its entry. *)
Theorem bootstrap_frame p p' :
  bootstrap p = Ok p' →
  (∀ k, k ∉ ["rust"; "go"; "c"; "asm6502"; "nasm"] →
     languages p' !! k = languages p !! k) ∧
  (∀ path id, path ∈ loaded p → component_id path = Some id →
     languages p' !! id = languages p !! id).
Proof.
  rewrite bootstrap_boot.
  intros (ns & _ & ->)%boot_spec; [|apply components_ok].
  unfold booted; cbn [languages]. split.
  - intros k Hk. apply register_all_lookup_other.
    intros Hin. by apply Hk, (written_ids_components (loaded p)).
  - intros path id Hin Hid. apply register_all_lookup_other.
    by eapply written_ids_uncached.
Qed.


(** X5: both bootstraps keep the module cache and the registry in
    agreement: if every cached component has its entry before the top
    level runs, every cached component has its entry after it. *)
Theorem bootstrap_keeps_cache_sound p :
  cache_sound p →
  (∀ p', bootstrap p = Ok p' → cache_sound p') ∧
  (∀ p', bootstrap_sibling p = Ok p' → cache_sound p').
Proof.
  intros Hs. rewrite bootstrap_boot, bootstrap_sibling_boot.
  split; intros p' Hb; by eapply boot_cache_sound.
Qed.


Lemma booted_registered paths ns p :
  registered (booted paths ns p)
  = (registered p ++ omap component_id (pending paths (loaded p)))%list.
Proof. reflexivity. Qed.

Lemma booted_loaded paths ns p :
  loaded (booted paths ns p) = list_to_set paths ∪ loaded p.
Proof. reflexivity. Qed.








Lemma step_load_inv p p' r :
  step LoadShell p = Ok (p', r) → boot components p = Ok p'.
Proof.
  simpl. intros (q & Hq & [= <- _])%bind_Ok. by rewrite <-bootstrap_boot.
Qed.

(** X9: nothing shrinks along a run. Over any sequence of loads and
    renders that completes, the execution context stays the same, the
    module cache and the set of registered identifiers only grow, the
    history of writes only gets longer at its end, and the agreement of
    cache and registry is kept. *)
Theorem run_monotone evs p p' :
  run evs p = Ok p' →
  host p' = host p ∧
  loaded p ⊆ loaded p' ∧
  dom (languages p) ⊆ dom (languages p') ∧
  registered p `prefix_of` registered p' ∧
  (cache_sound p → cache_sound p').
Proof.
  revert p. induction evs as [|[|a] rest IH]; intros p; simpl.
  - by intros [= <-].
  - intros ([q r] & Hstep & Hrest)%bind_Ok. simpl in Hrest.
    apply IH in Hrest as (Hh & Hl & Hd & Hr & Hs).
    apply bind_Ok in Hstep as (q' & Hq & [= -> _]).
    rewrite bootstrap_boot in Hq.
    pose proof (boot_cache_sound _ _ _ Hq) as Hs'.
    pose proof (boot_dom _ _ _ Hq) as Hd'.
    apply boot_spec in Hq as (ns & _ & ->); [|apply components_ok].
    split; [done|]. split; [|split; [|split]].
    + etrans; [|exact Hl]. rewrite booted_loaded. apply union_subseteq_r.
    + by etrans.
    + etrans; [|exact Hr]. rewrite booted_registered. by apply prefix_app_r.
    + auto.
  - intros Hrest. by apply IH in Hrest.
Qed.

(** X10: only the first load counts. Started in a process that has loaded
    nothing, a sequence of events ends in the state one bootstrap leaves
    if the sequence contains a load, and in the starting state if it
    contains renders only; renders before the load and anything after it
    make no difference. *)
Theorem run_from_fresh e stock p1 evs :
  bootstrap (fresh_process e stock) = Ok p1 →
  run evs (fresh_process e stock)
  = Ok (if existsb is_load evs then p1 else fresh_process e stock).
Proof.
  intros Hb. induction evs as [|[|a] rest IH]; simpl; [done| |done].
  rewrite Hb. simpl. apply run_fixed.
  rewrite bootstrap_boot in *. by eapply boot_again.
Qed.

Lemma boot_fixed paths p :
  installed p → (∀ path, path ∈ paths → path ∈ loaded p) →
  boot paths p = Ok p.
Proof.
  intros Hinst Hall. unfold boot. rewrite install_Prism_again by done.
  simpl. by apply require_all_cached.
Qed.

Lemma boot_loaded paths p p' :
  boot paths p = Ok p' →
  loaded p ⊆ loaded p' ∧ ∀ path, path ∈ paths → path ∈ loaded p'.
Proof.
  intros (p0 & Hi & Hr)%boot_inv.
  apply install_Prism_frame in Hi as (_ & _ & <- & _). split.
  - by apply require_all_extends in Hr as [].
  - by eapply require_all_loaded.
Qed.

(** X11: once both shells have run, neither does anything more. If the
    top level of one shell completes and then that of the other, in either
    order and from any process, the state reached is a fixed point of both
    bootstraps: evaluating either top level again returns it unchanged. *)
Theorem both_shells_fixed_point p p1 p2 :
  (bootstrap p = Ok p1 ∧ bootstrap_sibling p1 = Ok p2) ∨
  (bootstrap_sibling p = Ok p1 ∧ bootstrap p1 = Ok p2) →
  bootstrap p2 = Ok p2 ∧ bootstrap_sibling p2 = Ok p2.
Proof.
  rewrite !bootstrap_boot, !bootstrap_sibling_boot.
  intros [[H1 H2]|[H1 H2]].
  - split; [|by eapply boot_again].
    apply boot_fixed; [by eapply boot_installed|].
    intros path Hin. apply (proj1 (boot_loaded _ _ _ H2)).
    by apply (proj2 (boot_loaded _ _ _ H1)).
  - split; [by eapply boot_again|].
    apply boot_fixed; [by eapply boot_installed|].
    intros path Hin. apply (proj1 (boot_loaded _ _ _ H2)).
    by apply (proj2 (boot_loaded _ _ _ H1)).
Qed.

End Shell.

(** *** Concrete runs

    The runs below take the unit type for rulesets and an engine that
    ships with no grammar. *)

Example component_id_rust :
  component_id "prismjs/components/prism-rust" = Some "rust".
Proof. reflexivity. Qed.

Example component_id_asm6502 :
  component_id "prismjs/components/prism-asm6502" = Some "asm6502".
Proof. reflexivity. Qed.

Example component_id_other : component_id "nextra-theme-docs/style.css" = None.
Proof. reflexivity. Qed.

Example bootstrap_browser_log :
  match bootstrap unit (λ _ _, tt) (fresh_process unit browser ∅) with
  | Ok p => (global_Prism unit p, window_Prism unit p, registered unit p)
  | Throw _ => (None, None, [])
  end = (None, Some PrismRef, ["rust"; "go"; "c"; "asm6502"; "nasm"]).
Proof. by vm_compute. Qed.

Example bootstrap_sibling_server_log :
  match bootstrap_sibling unit (λ _ _, tt) (fresh_process unit server ∅) with
  | Ok p => (global_Prism unit p, window_Prism unit p, registered unit p)
  | Throw _ => (None, None, [])
  end = (Some PrismRef, None, ["rust"; "nasm"; "bash"]).
Proof. by vm_compute. Qed.

Example bootstrap_no_namespace :
  bootstrap unit (λ _ _, tt) (fresh_process unit (mkEnv false false) ∅)
  = Throw (ReferenceError "window").
Proof. reflexivity. Qed.

(** A component required before the engine is installed finds no [Prism]. *)
Example require_before_install :
  require unit (λ _ _, tt) "prismjs/components/prism-rust"
    (fresh_process unit server ∅)
  = Throw (ReferenceError "Prism").
Proof. by vm_compute. Qed.


Lemma cache_sound_fresh G e (stock : gmap string G) :
  cache_sound G (fresh_process G e stock).
Proof. intros path id Hin. by apply not_elem_of_empty in Hin. Qed.



Lemma install_Prism_selects_witness :
  has_global server = true ∧
  install_Prism unit (fresh_process unit server ∅)
    = Ok (mkProcess unit server (Some PrismRef) None ∅ ∅ []) ∧
  has_global browser = false ∧ has_window browser = true ∧
  install_Prism unit (fresh_process unit browser ∅)
    = Ok (mkProcess unit browser None (Some PrismRef) ∅ ∅ []) ∧
  has_global (mkEnv false false) = false ∧
  has_window (mkEnv false false) = false ∧
  install_Prism unit (fresh_process unit (mkEnv false false) ∅)
    = Throw (ReferenceError "window").
Proof.
  split; [reflexivity|]. split.
  { exact (proj1 (install_Prism_selects unit (fresh_process unit server ∅))
             eq_refl). }
  split; [reflexivity|]. split; [reflexivity|]. split.
  { exact (proj1 (proj2
             (install_Prism_selects unit (fresh_process unit browser ∅)))
             eq_refl eq_refl). }
  split; [reflexivity|]. split; [reflexivity|].
  exact (proj2 (proj2 (proj2
           (install_Prism_selects unit
              (fresh_process unit (mkEnv false false) ∅))))
           eq_refl eq_refl).
Defined.



(** *** Concrete runs for the facts on writes and frames *)



Lemma not_in_components_bash :
  "bash" ∉ ["rust"; "go"; "c"; "asm6502"; "nasm"].
Proof. refine (bool_decide_unpack _ _); by vm_compute. Qed.


(** A stock entry for bash survives the bootstrap, and a component that is
    cached without an entry is not run again. *)
Lemma bootstrap_frame_witness :
  let p := mkProcess unit server None None {["bash" := tt]}
             {["prismjs/components/prism-rust"]} [] in
  ∃ p', bootstrap unit (λ _ _, tt) p = Ok p' ∧
    languages unit p' !! "bash" = Some tt ∧
    languages unit p' !! "rust" = None.
Proof.
  intros p.
  destruct (boot_total unit (λ _ _, tt) components p eq_refl components_ok)
    as [p' Hb].
  rewrite <-bootstrap_boot in Hb. exists p'. split; [exact Hb|].
  destruct (bootstrap_frame unit (λ _ _, tt) p p' Hb) as [Hother Hcached].
  split.
  - rewrite (Hother "bash" not_in_components_bash). reflexivity.
  - rewrite (Hcached "prismjs/components/prism-rust" "rust");
      [reflexivity | by apply elem_of_singleton | reflexivity].
Defined.


Lemma bootstrap_keeps_cache_sound_witness :
  cache_sound unit (fresh_process unit server ∅) ∧
  (∃ p', bootstrap unit (λ _ _, tt) (fresh_process unit server ∅) = Ok p' ∧
     cache_sound unit p') ∧
  (∃ p', bootstrap_sibling unit (λ _ _, tt) (fresh_process unit server ∅)
           = Ok p' ∧ cache_sound unit p').
Proof.
  split; [apply cache_sound_fresh|].
  destruct (bootstrap_keeps_cache_sound unit (λ _ _, tt)
              (fresh_process unit server ∅) (cache_sound_fresh _ _ _))
    as [Hmain Hsib].
  split.
  - destruct (bootstrap_fresh unit (λ _ _, tt) server ∅ eq_refl)
      as (p' & Hb & _).
    exists p'. split; [exact Hb | exact (Hmain p' Hb)].
  - destruct (bootstrap_sibling_fresh unit (λ _ _, tt) server ∅ eq_refl)
      as (p' & Hb & _).
    exists p'. split; [exact Hb | exact (Hsib p' Hb)].
Defined.




Lemma run_monotone_witness :
  let home := mkAppProps unit unit (λ _, tt) ∅ in
  let evs := [RenderPage unit unit home; LoadShell unit unit;
              RenderPage unit unit home] in
  ∃ p', run unit (λ _ _, tt) unit unit evs (fresh_process unit server ∅)
          = Ok p' ∧
    host unit p' = server ∧
    [] `prefix_of` registered unit p' ∧
    cache_sound unit p'.
Proof.
  intros home evs.
  destruct (bootstrap_fresh unit (λ _ _, tt) server ∅ eq_refl)
    as (p1 & Hb & _).
  assert (run unit (λ _ _, tt) unit unit evs (fresh_process unit server ∅)
          = Ok p1) as Hrun.
  { unfold evs. simpl. rewrite Hb. reflexivity. }
  exists p1. split; [exact Hrun|].
  destruct (run_monotone unit (λ _ _, tt) unit unit evs _ p1 Hrun)
    as (Hhost & _ & _ & Hpre & Hsound).
  split; [exact Hhost|]. split; [exact Hpre|].
  exact (Hsound (cache_sound_fresh _ _ _)).
Defined.

Lemma run_from_fresh_witness :
  let home := mkAppProps unit unit (λ _, tt) ∅ in
  ∃ p1, bootstrap unit (λ _ _, tt) (fresh_process unit server ∅) = Ok p1 ∧
    run unit (λ _ _, tt) unit unit
      [RenderPage unit unit home; LoadShell unit unit;
       RenderPage unit unit home; LoadShell unit unit]
      (fresh_process unit server ∅) = Ok p1 ∧
    run unit (λ _ _, tt) unit unit
      [RenderPage unit unit home; RenderPage unit unit home]
      (fresh_process unit server ∅) = Ok (fresh_process unit server ∅).
Proof.
  intros home.
  destruct (bootstrap_fresh unit (λ _ _, tt) server ∅ eq_refl)
    as (p1 & Hb & _).
  exists p1. split; [exact Hb|]. split.
  - exact (run_from_fresh unit (λ _ _, tt) unit unit server ∅ p1
             [RenderPage unit unit home; LoadShell unit unit;
              RenderPage unit unit home; LoadShell unit unit] Hb).
  - exact (run_from_fresh unit (λ _ _, tt) unit unit server ∅ p1
             [RenderPage unit unit home; RenderPage unit unit home] Hb).
Defined.

Lemma both_shells_fixed_point_witness :
  ∃ p1 p2,
    bootstrap unit (λ _ _, tt) (fresh_process unit server ∅) = Ok p1 ∧
    bootstrap_sibling unit (λ _ _, tt) p1 = Ok p2 ∧
    bootstrap unit (λ _ _, tt) p2 = Ok p2 ∧
    bootstrap_sibling unit (λ _ _, tt) p2 = Ok p2.
Proof.
  destruct (bootstrap_fresh unit (λ _ _, tt) server ∅ eq_refl)
    as (p1 & Hb1 & _).
  assert (has_global (host unit p1) || has_window (host unit p1) = true)
    as Hns.
  { rewrite bootstrap_boot in Hb1.
    apply boot_spec in Hb1 as (ns & _ & ->); [reflexivity|].
    apply components_ok. }
  destruct (boot_total unit (λ _ _, tt) components_sibling p1 Hns
              components_sibling_ok) as [p2 Hb2].
  rewrite <-bootstrap_sibling_boot in Hb2.
  exists p1, p2. split; [exact Hb1|]. split; [exact Hb2|].
  exact (both_shells_fixed_point unit (λ _ _, tt) _ p1 p2
           (or_introl (conj Hb1 Hb2))).
Defined.

End AppShell.

(** ** Facts about the theme configuration *)

Import Theme.

Lemma import_config_cached now cfg :
  import_config now (Some cfg) = (cfg, Some cfg).
Proof. reflexivity. Qed.

Lemma import_config_first now :
  import_config now None = (theme_config now, Some (theme_config now)).
Proof. reflexivity. Qed.

Example footer_year_2021 :
  footer_year (theme_config (mkDate 2021 3 25)) = Some 2021%Z.
Proof. reflexivity. Qed.

Example head_has_twenty_tags :
  match head (theme_config (mkDate 2021 3 25)) with
  | Fragment tags => length tags
  | _ => 0
  end = 20.
Proof. reflexivity. Qed.

(** C4 (as stated) fails: a process that evaluates the configuration on
    31 December 2021 and serves it on 1 January 2022 shows 2021 in its
    footer, not the calendar year of the moment the page is rendered. *)
Lemma footer_year_counterexample :
  footer_year
    (fst (import_config (mkDate 2022 0 1)
            (snd (import_config (mkDate 2021 11 31) None))))
  ≠ Some (getFullYear (mkDate 2022 0 1)).
Proof. rewrite import_config_first. simpl. discriminate. Qed.

(** C4 (amended): the configuration depends on the clock only through the
    year in its footer text, and that year is the calendar year at the
    moment the configuration module is evaluated. Every field other than
    [footerText] is the same whatever the clock reads; [footerText] is the
    fragment of a space, the year read at evaluation and the copyright
    text; and a later import in the same process still carries the year of
    the evaluation. *)
Theorem footer_year_is_evaluation_year (now other later : Date) :
  without_footerText (theme_config other)
    = without_footerText (theme_config now) ∧
  footerText (theme_config now)
    = Fragment [Text " "; Num (getFullYear now); Text " © @martinomburajr."] ∧
  footer_year (theme_config now) = Some (getFullYear now) ∧
  footer_year
    (fst (import_config later (snd (import_config now None))))
    = Some (getFullYear now).
Proof. by rewrite import_config_first. Qed.

(** C7: the configuration is handed out unchanged. Once the module has
    been evaluated, every import, at whatever time, returns the record
    built at evaluation and leaves the module cache as it was; so any two
    accesses return records equal in every field. The accessor takes no
    argument besides the process state and has no failing case. *)
Theorem import_config_same_record (t0 t1 t2 : Date) :
  let c1 := snd (import_config t0 None) in
  let c2 := snd (import_config t1 c1) in
  fst (import_config t1 c1) = fst (import_config t0 None) ∧
  fst (import_config t2 c2) = fst (import_config t1 c1) ∧
  c2 = c1 ∧
  snd (import_config t2 c2) = c1.
Proof.
  intros c1 c2. subst c2 c1.
  rewrite import_config_first. cbn [snd fst].
  rewrite (import_config_cached t1). cbn [snd fst].
  rewrite (import_config_cached t2). by repeat split.
Qed.

(** C8: the link to edit a page is switched off although the repository
    is given: whenever the module is evaluated, [footerEditOnGitHubLink]
    is [false] and [repository] is the non-empty GitHub address. *)
Theorem edit_link_disabled (now : Date) :
  footerEditOnGitHubLink (theme_config now) = false ∧
  repository (theme_config now) = "https://github.com/martinomburajr" ∧
  repository (theme_config now) ≠ "".
Proof. by repeat split. Qed.
